(** * Annotation.cpp: annotations of the HIDL compiler front end

    A shallow embedding of [src/Annotation.cpp] and the properties of its
    parameter accessors, its evaluation pass and its textual rendering.

    - [std::string] is [string] (a sequence of 8-bit characters);
      [std::vector] is [list]; [size_t] indices are [nat].
    - A failed [CHECK] aborts the process.  Accessors that contain one
      return a [result]: the value, or the check that failed.
    - [ConstantExpression] nodes live in the expression subsystem and are
      only referenced here.  Their state is a heap that [evaluate] threads
      through; the node operations are an interface ([ConstantExpressionOps]).
      A node that fails to fold aborts the process, as a failed [CHECK]
      does, so [evaluate] returns a [result] too.
    - [AnnotationParam] is a class with virtual members: an object is a
      record holding its name and the member functions it dispatches to. *)

From Equations Require Import Equations.
From stdpp Require Import base list strings.
From Stdlib Require Import Ascii ZArith Lia.

Set Default Proof Using "Type".
Open Scope Z_scope.
Open Scope nat_scope.
Open Scope stdpp_scope.

(** ** Fatal checks *)

(** The ways a call can abort.  [WrongArity] is the [CHECK_EQ] on the number
    of values in [getSingleValue]; [TypeMismatch] is the [CHECK] of
    [getSingleString] and the [CHECK(false)] of [getSingleBool]; each carries
    the text streamed into the check.  [OutOfRange] is what [std::vector::at]
    raises for an index that is not below the size.  [EvaluationFailure] is
    the abort of the expression subsystem when a node does not fold. *)
Inductive check_failure : Type :=
| WrongArity (msg : string)
| TypeMismatch (msg : string)
| OutOfRange
| EvaluationFailure (msg : string).

Inductive result (A : Type) : Type :=
| Ok (a : A)
| Fatal (e : check_failure).
Arguments Ok {A} a.
Arguments Fatal {A} e.

Definition bind {A B : Type} (r : result A) (k : A -> result B) : result B :=
  match r with
  | Ok a => k a
  | Fatal e => Fatal e
  end.

Notation "x <- r ;; k" := (bind r (fun x => k))
  (at level 100, r at next level, right associativity).

(** [CHECK(cond) << msg]. *)
Definition CHECK (cond : bool) (e : check_failure) : result unit :=
  if cond then Ok tt else Fatal e.

(** [std::vector::at]: bounds-checked element access. *)
Definition at_ {A : Type} (v : list A) (i : nat) : result A :=
  match v !! i with
  | Some x => Ok x
  | None => Fatal OutOfRange
  end.

(** ** Strings *)

(** The double-quote character, code 34. *)
Definition dquote : ascii := "034"%char.

(** [value.size() >= 2 && value[0] == '"' && value[value.size() - 1] == '"'],
    evaluated left to right, so that the indices are read only when they are
    in range. *)
Definition is_quoted (value : string) : bool :=
  (2 <=? String.length value) &&
  match String.get 0 value with
  | Some c => bool_decide (c = dquote)
  | None => false
  end &&
  match String.get (String.length value - 1) value with
  | Some c => bool_decide (c = dquote)
  | None => false
  end.

(** Modelled from the spec: [StringHelper::JoinStrings] (hidl-util's
    StringHelper is not under src/): the components in order, with the
    separator between two consecutive ones. *)
Fixpoint JoinStrings (components : list string) (separator : string) : string :=
  match components with
  | [] => ""
  | [c] => c
  | c :: rest => c +:+ separator +:+ JoinStrings rest separator
  end.

(** Modelled from the spec: [Formatter] (hidl-util's Formatter is not under
    src/): the sink that [dump] writes to, as the text written so far;
    [out << s] appends [s]. *)
Definition Formatter : Type := string.

Definition put (out : Formatter) (s : string) : Formatter := out +:+ s.
Infix "<<" := put (at level 50, left associativity).

(** ** Status codes *)

(** Modelled from the spec: [status_t] and [OK] (utils/Errors.h is not under
    src/): a 32-bit result code, [OK] for success and any other value for a
    failure. *)
Definition status_t : Type := Z.
Definition OK : status_t := 0%Z.

(** [err != OK]. *)
Definition is_error (err : status_t) : bool := negb (err =? OK)%Z.

(** ** Constant expressions *)

(** Modelled from the spec: [ConstantExpression] (ConstantExpression.h is not
    under src/).  [Node] is a pointer to a node, [Heap] the state of all
    nodes.  [value()] and [description()] read a node.  [evaluate()] folds
    the node in place and leaves the new state of the nodes, or it fails: a
    node that does not fold is fatal in the reference, as every failure is,
    and the run ends there. *)
Class ConstantExpressionOps (Heap Node : Type) : Type := {
  ce_value : Node -> Heap -> string;
  ce_description : Node -> Heap -> string;
  ce_evaluate : Node -> Heap -> result Heap
}.

Section Annotations.
Context {Heap Node : Type} `{!ConstantExpressionOps Heap Node}.

(** ** AnnotationParam *)

(** An object of class [AnnotationParam]: the member [mName] and the
    virtual members, which a call through a pointer dispatches to.
    [getValues] and [getSingleValue] are pure virtual; [evaluate] and
    [validate] have the default bodies below. *)
Record AnnotationParam : Type := {
  AnnotationParam_mName : string;
  getValues : Heap -> list string;
  getSingleValue : Heap -> result string;
  evaluate : Heap -> result (status_t * Heap);
  validate : Heap -> status_t
}.

Definition getName (this : AnnotationParam) : string :=
  AnnotationParam_mName this.

(** [AnnotationParam::evaluate] *)
Definition AnnotationParam_evaluate (h : Heap) : result (status_t * Heap) :=
  Ok (OK, h).

(** [AnnotationParam::validate] *)
Definition AnnotationParam_validate (h : Heap) : status_t := OK.

(** [AnnotationParam::getSingleString] *)
Definition getSingleString (this : AnnotationParam) (h : Heap) : result string :=
  value <- getSingleValue this h ;;
  _ <- CHECK (is_quoted value)
         (TypeMismatch (AnnotationParam_mName this +:+ " must be a string")) ;;
  (* unquote string *)
  let value := String.substring 1 (String.length value - 2) value in
  Ok value.

(** [AnnotationParam::getSingleBool] *)
Definition getSingleBool (this : AnnotationParam) (h : Heap) : result bool :=
  value <- getSingleString this h ;;
  if bool_decide (value = "true") then Ok true
  else if bool_decide (value = "false") then Ok false
  else
    _ <- CHECK false
           (TypeMismatch (AnnotationParam_mName this
                          +:+ " must be of boolean value (true/false).")) ;;
    Ok false.

(** ** StringAnnotationParam *)

(** [StringAnnotationParam::getValues] *)
Definition StringAnnotationParam_getValues
    (mValues : list string) (h : Heap) : list string :=
  mValues.

(** [StringAnnotationParam::getSingleValue] *)
Definition StringAnnotationParam_getSingleValue
    (mName : string) (mValues : list string) (h : Heap) : result string :=
  _ <- CHECK (bool_decide (length mValues = 1))
         (WrongArity (mName +:+ " requires one value but has multiple")) ;;
  at_ mValues 0.

(** The constructor: the object of the subclass, which inherits
    [evaluate] and [validate]. *)
Definition StringAnnotationParam
    (name : string) (values : list string) : AnnotationParam := {|
  AnnotationParam_mName := name;
  getValues := StringAnnotationParam_getValues values;
  getSingleValue := StringAnnotationParam_getSingleValue name values;
  evaluate := AnnotationParam_evaluate;
  validate := AnnotationParam_validate
|}.

(** ** ConstantExpressionAnnotationParam *)

Definition convertToString (value : Node) (h : Heap) : string :=
  ce_value value h +:+ " /* " +:+ ce_description value h +:+ " */".

(** [ConstantExpressionAnnotationParam::getValues]: the loop pushes one
    string per node onto [ret]. *)
Definition ConstantExpressionAnnotationParam_getValues
    (mValues : list Node) (h : Heap) : list string :=
  foldl (fun ret value => ret ++ [convertToString value h]) [] mValues.

(** [ConstantExpressionAnnotationParam::getSingleValue] *)
Definition ConstantExpressionAnnotationParam_getSingleValue
    (mName : string) (mValues : list Node) (h : Heap) : result string :=
  _ <- CHECK (bool_decide (length mValues = 1))
         (WrongArity (mName +:+ " requires one value but has multiple")) ;;
  value <- at_ mValues 0 ;;
  Ok (convertToString value h).

(** The loop of [ConstantExpressionAnnotationParam::evaluate]:
    [value->evaluate()] for each node in turn. *)
Fixpoint evaluate_nodes (mValues : list Node) (h : Heap) : result Heap :=
  match mValues with
  | [] => Ok h
  | value :: rest => h <- ce_evaluate value h ;; evaluate_nodes rest h
  end.

(** [ConstantExpressionAnnotationParam::evaluate]: every node is
    evaluated, and the result is that of the base class. *)
Definition ConstantExpressionAnnotationParam_evaluate
    (mValues : list Node) (h : Heap) : result (status_t * Heap) :=
  h <- evaluate_nodes mValues h ;;
  AnnotationParam_evaluate h.

Definition ConstantExpressionAnnotationParam
    (name : string) (values : list Node) : AnnotationParam := {|
  AnnotationParam_mName := name;
  getValues := ConstantExpressionAnnotationParam_getValues values;
  getSingleValue := ConstantExpressionAnnotationParam_getSingleValue name values;
  evaluate := ConstantExpressionAnnotationParam_evaluate values;
  validate := AnnotationParam_validate
|}.

(** ** Annotation *)

Record Annotation : Type := {
  Annotation_mName : string;
  Annotation_mParams : list AnnotationParam
}.

(** [Annotation::Annotation]: both arguments are stored as they are given;
    [name] is the text of the C string. *)
Definition Annotation_new
    (name : string) (params : list AnnotationParam) : Annotation :=
  {| Annotation_mName := name; Annotation_mParams := params |}.

(** [Annotation::name] *)
Definition name (this : Annotation) : string := Annotation_mName this.

(** [Annotation::params] *)
Definition params (this : Annotation) : list AnnotationParam :=
  Annotation_mParams this.

(** The loop of [Annotation::getParam]; [None] is [nullptr]. *)
Fixpoint getParam_loop
    (mParams : list AnnotationParam) (name : string) : option AnnotationParam :=
  match mParams with
  | [] => None
  | i :: rest =>
      if bool_decide (getName i = name) then Some i
      else getParam_loop rest name
  end.

(** [Annotation::getParam] *)
Definition getParam (this : Annotation) (name : string) : option AnnotationParam :=
  getParam_loop (Annotation_mParams this) name.

(** The loop of [Annotation::evaluate]. *)
Fixpoint evaluate_loop
    (mParams : list AnnotationParam) (h : Heap) : result (status_t * Heap) :=
  match mParams with
  | [] => Ok (OK, h)
  | param :: rest =>
      r <- evaluate param h ;;
      let '(err, h) := r in
      if is_error err then Ok (err, h) else evaluate_loop rest h
  end.

(** [Annotation::evaluate] *)
Definition Annotation_evaluate (this : Annotation) (h : Heap) : result (status_t * Heap) :=
  evaluate_loop (Annotation_mParams this) h.

(** The loop of [Annotation::validate]. *)
Fixpoint validate_loop (mParams : list AnnotationParam) (h : Heap) : status_t :=
  match mParams with
  | [] => OK
  | param :: rest =>
      let err := validate param h in
      if is_error err then err else validate_loop rest h
  end.

(** [Annotation::validate] *)
Definition Annotation_validate (this : Annotation) (h : Heap) : status_t :=
  validate_loop (Annotation_mParams this) h.

(** One iteration of the loop of [Annotation::dump], for the parameter
    [param] found at index [i]. *)
Definition dump_param
    (i : nat) (param : AnnotationParam) (h : Heap) (out : Formatter) : Formatter :=
  let out := if bool_decide (0 < i) then out << ", " else out in
  let out := out << getName param << "=" in
  let values := getValues param h in
  let out := if bool_decide (1 < length values) then out << "{" else out in
  let out := out << JoinStrings values ", " in
  if bool_decide (1 < length values) then out << "}" else out.

(** The loop of [Annotation::dump], from index [i] on. *)
Equations? dump_loop (mParams : list AnnotationParam) (h : Heap)
    (i : nat) (out : Formatter) : result Formatter
    by wf (length mParams - i) lt :=
  dump_loop mParams h i out with decide (i < length mParams) => {
    | left _ with at_ mParams i => {
        | Ok param => dump_loop mParams h (S i) (dump_param i param h out);
        | Fatal e => Fatal e };
    | right _ => Ok out }.
Proof. lia. Qed.

(** [Annotation::dump] *)
Definition dump (this : Annotation) (h : Heap) (out : Formatter) : result Formatter :=
  let out := out << "@" << Annotation_mName this in
  if bool_decide (length (Annotation_mParams this) = 0) then Ok out
  else
    let out := out << "(" in
    out <- dump_loop (Annotation_mParams this) h 0 out ;;
    Ok (out << ")").

End Annotations.

(** ** The calls on an Annotation object *)

Section Calls.
Context {Heap Node : Type} `{!ConstantExpressionOps Heap Node}.

(** The member functions that can be called on an [Annotation]. *)
Inductive call : Type :=
| call_name
| call_params
| call_getParam (name : string)
| call_evaluate
| call_validate
| call_dump.

(** The objects a call can touch: the annotation itself, the heap of
    expression nodes and the sink. *)
Record machine : Type := {
  m_this : Annotation (Heap := Heap);
  m_heap : Heap;
  m_out : Formatter
}.

(** The state after a call, when the call returns.  Only [evaluate] (through
    the nodes) and [dump] (through the sink) write anything; no member
    function assigns to the members of the annotation. *)
Definition run_call (c : call) (m : machine) : result machine :=
  match c with
  | call_name | call_params | call_getParam _ | call_validate => Ok m
  | call_evaluate =>
      r <- Annotation_evaluate (m_this m) (m_heap m) ;;
      Ok {| m_this := m_this m; m_heap := snd r; m_out := m_out m |}
  | call_dump =>
      out <- dump (m_this m) (m_heap m) (m_out m) ;;
      Ok {| m_this := m_this m; m_heap := m_heap m; m_out := out |}
  end.

Fixpoint run_calls (cs : list call) (m : machine) : result machine :=
  match cs with
  | [] => Ok m
  | c :: cs => m <- run_call c m ;; run_calls cs m
  end.

End Calls.

(** ** An expression subsystem to run the definitions on

    The nodes are the entries of an arena and a pointer is an index into it.
    A node folds to its text when it is a constant, and its evaluation
    fails when it is not (or when the pointer dangles). *)

Record arena_node : Type := {
  node_text : string;
  node_constant : bool;
  node_folded : option string
}.

(** A status other than [OK]. *)
Definition UNKNOWN_ERROR : status_t := (-2147483648)%Z.

Definition arena_value (n : nat) (h : list arena_node) : string :=
  match h !! n with
  | Some nd => default "" (node_folded nd)
  | None => ""
  end.

Definition arena_description (n : nat) (h : list arena_node) : string :=
  match h !! n with
  | Some nd => node_text nd
  | None => ""
  end.

Definition arena_evaluate (n : nat) (h : list arena_node) : result (list arena_node) :=
  match h !! n with
  | Some nd =>
      if node_constant nd
      then Ok (<[n := {| node_text := node_text nd;
                         node_constant := true;
                         node_folded := Some (node_text nd) |}]> h)
      else Fatal (EvaluationFailure (node_text nd))
  | None => Fatal (EvaluationFailure "")
  end.

#[export] Instance arena_ops : ConstantExpressionOps (list arena_node) nat := {|
  ce_value := arena_value;
  ce_description := arena_description;
  ce_evaluate := arena_evaluate
|}.

(** A parameter whose [evaluate] appends a mark to a log and reports
    [status]: a test double of the virtual interface. *)
Definition LoggingParam (name : string) (status : status_t) : AnnotationParam (Heap := list string) := {|
  AnnotationParam_mName := name;
  getValues := fun _ => [];
  getSingleValue := fun _ => Fatal (WrongArity name);
  evaluate := fun log => Ok (status, log ++ [name]);
  validate := fun _ => OK
|}.

(** A string between double quotes. *)
Definition quoted (s : string) : string :=
  String dquote (s +:+ String dquote "").

(** An arena with a constant at index 0 and an expression that does not fold
    at index 1. *)
Definition sample_heap : list arena_node :=
  [ {| node_text := "1 + 2"; node_constant := true; node_folded := None |};
    {| node_text := "1 / 0"; node_constant := false; node_folded := None |} ].

(** The same arena once the node at index 0 is folded. *)
Definition folded_heap : list arena_node :=
  [ {| node_text := "1 + 2"; node_constant := true; node_folded := Some "1 + 2" |};
    {| node_text := "1 / 0"; node_constant := false; node_folded := None |} ].

(** Parameters over the arena. *)
Definition StringParam (name : string) (values : list string) :
    AnnotationParam (Heap := list arena_node) :=
  StringAnnotationParam name values.

Definition ConstantExpressionParam (name : string) (values : list nat) :
    AnnotationParam (Heap := list arena_node) :=
  ConstantExpressionAnnotationParam name values.

(** ** The parameter classes of this file

    The two concrete subclasses of [AnnotationParam], as data: what the
    constructors are given.  [construct] builds the object, [nodes_of] lists
    the expression nodes that the object refers to. *)

Section Classes.
Context {Heap Node : Type} `{!ConstantExpressionOps Heap Node}.

Inductive param_class : Type :=
| StringClass (name : string) (values : list string)
| ConstantExpressionClass (name : string) (values : list Node).

Definition construct (c : param_class) : AnnotationParam (Heap := Heap) :=
  match c with
  | StringClass name values => StringAnnotationParam name values
  | ConstantExpressionClass name values => ConstantExpressionAnnotationParam name values
  end.

Definition nodes_of (c : param_class) : list Node :=
  match c with
  | StringClass _ _ => []
  | ConstantExpressionClass _ values => values
  end.

End Classes.

(** ** The specification's side

    What the statements below compare the code with: the canonical text of
    an annotation as the specification words it, and the evaluation of a
    sequence of parameters, or of nodes, one after the other. *)

(** [key=value] for a parameter with one value, [key={v1, v2, ...}] for one
    with more; the braces are there when the number of values exceeds 1. *)
Definition param_text (key : string) (values : list string) : string :=
  key +:+ "=" +:+
  (if bool_decide (1 < length values)
   then "{" +:+ JoinStrings values ", " +:+ "}"
   else JoinStrings values ", ").

(** [@Name], then, when there are parameters, their texts between
    parentheses, separated by [", "]. *)
Definition annotation_text (name : string) (params : list (string * list string)) : string :=
  "@" +:+ name +:+
  match params with
  | [] => ""
  | _ => "(" +:+ JoinStrings (map (fun kv => param_text (fst kv) (snd kv)) params) ", " +:+ ")"
  end.

Section Specification.
Context {Heap Node : Type} `{!ConstantExpressionOps Heap Node}.

(** The key and the values of each parameter, in declaration order. *)
Definition keys_and_values (this : Annotation) (h : Heap) : list (string * list string) :=
  map (fun param => (getName param, getValues param h)) (params this).

(** The text that the iterations of the loop of [dump] write from index [i]
    on, for the parameters [ps] that are left. *)
Fixpoint loop_text (h : Heap) (i : nat) (ps : list AnnotationParam) : string :=
  match ps with
  | [] => ""
  | p :: ps =>
      (if bool_decide (0 < i) then ", " else "")
      +:+ param_text (getName p) (getValues p h) +:+ loop_text h (S i) ps
  end.

(** [succeed_in_order ps h h']: the [evaluate] of each parameter of [ps],
    called in order from the heap [h], returns [OK], and leaves [h']. *)
Inductive succeed_in_order : list AnnotationParam -> Heap -> Heap -> Prop :=
| succeed_nil (h : Heap) : succeed_in_order [] h h
| succeed_cons (p : AnnotationParam) (ps : list AnnotationParam) (h h' h'' : Heap) :
    evaluate p h = Ok (OK, h') ->
    succeed_in_order ps h' h'' ->
    succeed_in_order (p :: ps) h h''.

(** [nodes_evaluated nodes h h']: [evaluate()] is called on each node of
    [nodes], in order from the heap [h]; every call folds its node, and the
    calls leave [h']. *)
Inductive nodes_evaluated : list Node -> Heap -> Heap -> Prop :=
| nodes_nil (h : Heap) : nodes_evaluated [] h h
| nodes_cons (node : Node) (nodes : list Node) (h h' h'' : Heap) :
    ce_evaluate node h = Ok h' ->
    nodes_evaluated nodes h' h'' ->
    nodes_evaluated (node :: nodes) h h''.

End Specification.

(** * Properties *)

(** ** Strings *)

Lemma append_cons (c : ascii) (s t : string) :
  String c s +:+ t = String c (s +:+ t).
Proof. reflexivity. Qed.

Lemma append_nil_l (s : string) : "" +:+ s = s.
Proof. reflexivity. Qed.

Lemma append_nil_r (s : string) : s +:+ "" = s.
Proof. induction s as [|c s IH]; [done|]. by rewrite append_cons, IH. Qed.

Lemma append_assoc (s1 s2 s3 : string) : (s1 +:+ s2) +:+ s3 = s1 +:+ s2 +:+ s3.
Proof. induction s1 as [|c s1 IH]; [done|]. by rewrite !append_cons, IH. Qed.

Lemma length_append (s1 s2 : string) :
  String.length (s1 +:+ s2) = String.length s1 + String.length s2.
Proof.
  induction s1 as [|c s1 IH]; [done|].
  rewrite append_cons. cbn [String.length]. by rewrite IH.
Qed.

Lemma substring_prefix (s t : string) :
  String.substring 0 (String.length s) (s +:+ t) = s.
Proof.
  induction s as [|c s IH].
  - by destruct t.
  - rewrite append_cons. cbn [String.length String.substring]. by rewrite IH.
Qed.

Lemma get_last (s : string) (c : ascii) :
  String.get (String.length s) (s +:+ String c "") = Some c.
Proof. induction s as [|a s IH]; [done|]. rewrite append_cons. exact IH. Qed.

(** A string that ends in [c] is its prefix of all but one character,
    followed by [c]. *)
Lemma last_char_split (s : string) (c : ascii) :
  String.get (String.length s - 1) s = Some c ->
  s = String.substring 0 (String.length s - 1) s +:+ String c "".
Proof.
  induction s as [|a s IH]; [done|].
  cbn [String.length]. rewrite Nat.sub_succ, Nat.sub_0_r.
  destruct s as [|b s].
  - cbn. by intros [= ->].
  - cbn [String.length String.get String.substring]. intros Hget.
    cbn [String.length] in IH. rewrite Nat.sub_succ, Nat.sub_0_r in IH.
    rewrite append_cons. f_equal. by apply IH.
Qed.

Lemma is_quoted_spec (v : string) :
  is_quoted v = true <->
  2 <= String.length v /\ String.get 0 v = Some dquote /\
  String.get (String.length v - 1) v = Some dquote.
Proof.
  unfold is_quoted. rewrite !andb_true_iff, Nat.leb_le.
  split.
  - intros [[Hlen H0] Hlast]. split; [done|]. split.
    + destruct (String.get 0 v); [|done]. by apply bool_decide_eq_true in H0 as ->.
    + destruct (String.get (String.length v - 1) v); [|done].
      by apply bool_decide_eq_true in Hlast as ->.
  - intros (Hlen & -> & ->). by rewrite !bool_decide_eq_true.
Qed.

(** A value that passes the check is the text that [substr(1, size - 2)]
    extracts from it, between two double quotes. *)
Lemma is_quoted_unquote (v : string) :
  is_quoted v = true ->
  v = quoted (String.substring 1 (String.length v - 2) v).
Proof.
  intros (Hlen & H0 & Hlast)%is_quoted_spec.
  destruct v as [|c v]; [done|]. cbn in H0. injection H0 as ->.
  destruct v as [|b v]; [cbn in Hlen; lia|].
  cbn [String.length] in *.
  rewrite !Nat.sub_succ, Nat.sub_0_r in *.
  cbn [String.get] in Hlast.
  unfold quoted. f_equal.
  cbn [String.substring].
  pose proof (last_char_split (String b v) dquote) as Hsplit.
  cbn [String.length] in Hsplit. rewrite Nat.sub_succ, Nat.sub_0_r in Hsplit.
  by apply Hsplit.
Qed.

Lemma quoted_is_quoted (r : string) :
  is_quoted (quoted r) = true /\
  String.substring 1 (String.length (quoted r) - 2) (quoted r) = r.
Proof.
  assert (Hlen : String.length (quoted r) = S (S (String.length r))).
  { unfold quoted. cbn [String.length]. rewrite length_append. cbn. lia. }
  rewrite Hlen, !Nat.sub_succ, Nat.sub_0_r. split.
  - apply is_quoted_spec. rewrite Hlen, Nat.sub_succ, Nat.sub_0_r.
    split; [lia|]. split; [done|]. unfold quoted. cbn [String.get].
    apply get_last.
  - unfold quoted. cbn [String.substring]. apply substring_prefix.
Qed.

(** ** Parameter accessors *)

Section AccessorProperties.
Context {Heap Node : Type} `{!ConstantExpressionOps Heap Node}.

Lemma push_back_loop {A B : Type} (f : A -> B) (l : list A) (ret : list B) :
  foldl (fun ret x => ret ++ [f x]) ret l = ret ++ map f l.
Proof.
  revert ret. induction l as [|x l IH]; intros ret; cbn.
  - by rewrite app_nil_r.
  - by rewrite IH, <- app_assoc.
Qed.

Lemma CHECK_arity_inv (n : nat) (e : check_failure) :
  CHECK (bool_decide (n = 1)) e = (if decide (n = 1) then Ok tt else Fatal e).
Proof. unfold CHECK. by destruct (decide (n = 1)); [rewrite bool_decide_eq_true_2|rewrite bool_decide_eq_false_2]. Qed.

(** C8. [getValues] of the String variant is the stored list of literals,
    unchanged and in order; [getValues] of the ConstantExpression variant
    has, for each node in order, the node's value, then [" /* "], then the
    node's description, then [" */"]. *)
Theorem getValues_variants (name : string) (h : Heap) :
  (forall values : list string,
      getValues (StringAnnotationParam name values) h = values) /\
  (forall values : list Node,
      getValues (ConstantExpressionAnnotationParam name values) h =
      map (fun node => ce_value node h +:+ " /* " +:+ ce_description node h +:+ " */")
          values).
Proof.
  split; intros values; [done|]. cbn.
  unfold ConstantExpressionAnnotationParam_getValues.
  by rewrite push_back_loop.
Qed.

(** C6. For both variants [getSingleValue] fails, with [WrongArity], exactly
    when the number of stored values is not 1; with one stored value it
    returns that value: the literal for the String variant, the text
    [value /* description */] for the ConstantExpression variant. *)
Theorem getSingleValue_arity (name : string) (h : Heap) :
  (forall values : list string,
      length values <> 1 <->
      exists e, getSingleValue (StringAnnotationParam name values) h = Fatal e) /\
  (forall (values : list string) (e : check_failure),
      getSingleValue (StringAnnotationParam name values) h = Fatal e ->
      exists msg, e = WrongArity msg) /\
  (forall v : string,
      getSingleValue (StringAnnotationParam name [v]) h = Ok v) /\
  (forall values : list Node,
      length values <> 1 <->
      exists e, getSingleValue (ConstantExpressionAnnotationParam name values) h = Fatal e) /\
  (forall (values : list Node) (e : check_failure),
      getSingleValue (ConstantExpressionAnnotationParam name values) h = Fatal e ->
      exists msg, e = WrongArity msg) /\
  (forall node : Node,
      getSingleValue (ConstantExpressionAnnotationParam name [node]) h =
      Ok (ce_value node h +:+ " /* " +:+ ce_description node h +:+ " */")).
Proof.
  split; [|split; [|split; [|split; [|split]]]].
  - intros values. cbn. unfold StringAnnotationParam_getSingleValue.
    rewrite CHECK_arity_inv. destruct (decide _) as [Hlen|Hlen].
    + destruct values as [|v [|??]]; try done. cbn. split; [done|]. by intros [??].
    + cbn. split; eauto.
  - intros values e. cbn. unfold StringAnnotationParam_getSingleValue.
    rewrite CHECK_arity_inv. destruct (decide _) as [Hlen|Hlen].
    + by destruct values as [|v [|??]].
    + cbn. intros [= <-]. eauto.
  - done.
  - intros values. cbn. unfold ConstantExpressionAnnotationParam_getSingleValue.
    rewrite CHECK_arity_inv. destruct (decide _) as [Hlen|Hlen].
    + destruct values as [|v [|??]]; try done. cbn. split; [done|]. by intros [??].
    + cbn. split; eauto.
  - intros values e. cbn. unfold ConstantExpressionAnnotationParam_getSingleValue.
    rewrite CHECK_arity_inv. destruct (decide _) as [Hlen|Hlen].
    + by destruct values as [|v [|??]].
    + cbn. intros [= <-]. eauto.
  - done.
Qed.

(** C4. When [getSingleValue] yields [v], [getSingleString] fails, with
    [TypeMismatch], unless [v] has at least two characters and both its first
    and its last character are the double quote; when it succeeds it returns
    [v] without exactly its first and its last character. *)
Theorem getSingleString_unquotes (this : AnnotationParam) (h : Heap) (v : string) :
  getSingleValue this h = Ok v ->
  let well_quoted :=
    2 <= String.length v /\ String.get 0 v = Some dquote /\
    String.get (String.length v - 1) v = Some dquote in
  (well_quoted ->
     getSingleString this h = Ok (String.substring 1 (String.length v - 2) v)) /\
  (~ well_quoted ->
     exists msg, getSingleString this h = Fatal (TypeMismatch msg)) /\
  (forall r, getSingleString this h = Ok r <-> v = String dquote (r +:+ String dquote "")).
Proof.
  intros Hv well_quoted. unfold getSingleString. rewrite Hv. cbn [bind].
  destruct (is_quoted v) eqn:Hq; cbn.
  - pose proof (proj1 (is_quoted_spec v) Hq) as Hwq.
    split; [done|]. split; [done|]. intros r. split.
    + intros [= <-]. by apply is_quoted_unquote.
    + intros ->. f_equal. apply (quoted_is_quoted r).
  - assert (~ well_quoted) as Hwq.
    { intros Hwq%is_quoted_spec. congruence. }
    split; [done|]. split; [eauto|]. intros r. split; [done|].
    intros ->. destruct (quoted_is_quoted r) as [Hq' _]. unfold quoted in Hq'. congruence.
Qed.

(** C5. [getSingleBool] first takes the unquoted string from
    [getSingleString] (and fails as it does); it returns [true] when that
    string is ["true"], [false] when it is ["false"], and fails with
    [TypeMismatch] for any other string. *)
Theorem getSingleBool_cases (this : AnnotationParam) (h : Heap) :
  match getSingleString this h with
  | Fatal e => getSingleBool this h = Fatal e
  | Ok s =>
      if decide (s = "true") then getSingleBool this h = Ok true
      else if decide (s = "false") then getSingleBool this h = Ok false
      else exists msg, getSingleBool this h = Fatal (TypeMismatch msg)
  end.
Proof.
  unfold getSingleBool. destruct (getSingleString this h) as [s|e]; [|done].
  cbn [bind]. destruct (decide (s = "true")) as [->|Ht]; [done|].
  rewrite (bool_decide_eq_false_2 _ Ht).
  destruct (decide (s = "false")) as [->|Hf]; [done|].
  rewrite (bool_decide_eq_false_2 _ Hf). cbn. eauto.
Qed.

End AccessorProperties.

(** ** Lookup and evaluation *)

Section AnnotationProperties.
Context {Heap Node : Type} `{!ConstantExpressionOps Heap Node}.
Implicit Types (p : AnnotationParam (Heap := Heap)) (ps : list (AnnotationParam (Heap := Heap))).

Lemma getParam_loop_None ps (key : string) :
  getParam_loop ps key = None <-> Forall (fun q => getName q <> key) ps.
Proof.
  induction ps as [|q ps IH]; cbn.
  - split; [constructor|done].
  - case_bool_decide as Hq.
    + split; [done|]. by intros [Hne _]%Forall_cons.
    + rewrite IH. split; [by constructor|]. by intros [_ ?]%Forall_cons.
Qed.

Lemma getParam_loop_Some ps (key : string) p :
  getParam_loop ps key = Some p <->
  exists before after,
    ps = before ++ p :: after /\ getName p = key /\
    Forall (fun q => getName q <> key) before.
Proof.
  induction ps as [|q ps IH]; cbn.
  - split; [done|]. intros (before & after & Heq & _). by destruct before.
  - case_bool_decide as Hq.
    + split.
      * intros [= ->]. exists [], ps. by repeat split.
      * intros (before & after & Heq & Hp & Hbefore).
        destruct before as [|q' before]; cbn in Heq.
        -- by injection Heq as ->.
        -- injection Heq as -> _. by apply Forall_cons in Hbefore as [? _].
    + rewrite IH. split.
      * intros (before & after & -> & Hp & Hbefore).
        exists (q :: before), after. repeat split; [done|by constructor].
      * intros (before & after & Heq & Hp & Hbefore).
        destruct before as [|q' before]; cbn in Heq.
        -- injection Heq as -> _. done.
        -- injection Heq as -> ->. apply Forall_cons in Hbefore as [_ ?].
           by exists before, after.
Qed.

(** C7. [getParam] scans the parameters in declaration order and returns the
    first one whose name is the given name: it returns [p] exactly when [p]
    has the name and no parameter before it has; it returns "not found"
    exactly when no parameter has the name; of two parameters with the name
    the one declared first is returned. *)
Theorem getParam_first_match (this : Annotation) (key : string) :
  (getParam this key = None <->
     Forall (fun q => getName q <> key) (params this)) /\
  (forall p,
     getParam this key = Some p <->
     exists before after,
       params this = before ++ p :: after /\ getName p = key /\
       Forall (fun q => getName q <> key) before) /\
  (forall before p1 between p2 after,
     params this = before ++ p1 :: between ++ p2 :: after ->
     Forall (fun q => getName q <> key) before ->
     getName p1 = key -> getName p2 = key ->
     getParam this key = Some p1).
Proof.
  unfold getParam, params. split; [apply getParam_loop_None|].
  split; [intros p; apply getParam_loop_Some|].
  intros before p1 between p2 after Hps Hbefore Hp1 _.
  apply getParam_loop_Some. by exists before, (between ++ p2 :: after).
Qed.

Lemma is_error_false (err : status_t) : is_error err = false <-> err = OK.
Proof. unfold is_error. rewrite negb_false_iff. apply Z.eqb_eq. Qed.

Lemma is_error_true (err : status_t) : is_error err = true <-> err <> OK.
Proof. unfold is_error. rewrite negb_true_iff. apply Z.eqb_neq. Qed.

Lemma evaluate_loop_succeed ps (h h' : Heap) :
  succeed_in_order ps h h' -> evaluate_loop ps h = Ok (OK, h').
Proof.
  induction 1 as [|p ps h h' h'' Hp _ IH]; [done|].
  cbn [evaluate_loop]. rewrite Hp. cbn [bind].
  by rewrite (proj2 (is_error_false OK)).
Qed.

(** The loop returns what the first parameter that does not succeed
    returns, status or abort. *)
Lemma evaluate_loop_stops before p after (h h1 : Heap) :
  succeed_in_order before h h1 ->
  (forall h2, evaluate p h1 <> Ok (OK, h2)) ->
  evaluate_loop (before ++ p :: after) h = evaluate p h1.
Proof.
  intros Hbefore Hp.
  induction Hbefore as [|q qs h h' h'' Hq _ IH]; cbn [app evaluate_loop].
  - destruct (evaluate p h) as [[err h2]|e]; [|done]. cbn [bind].
    destruct (decide (err = OK)) as [->|Herr]; [by destruct (Hp h2)|].
    by rewrite (proj2 (is_error_true err)).
  - rewrite Hq. cbn [bind]. rewrite (proj2 (is_error_false OK)); auto.
Qed.

(** Either every parameter succeeds, or the parameters split at the first
    one that does not. *)
Lemma evaluate_loop_cases ps (h : Heap) :
  (exists h', succeed_in_order ps h h') \/
  (exists before p after h1,
      ps = before ++ p :: after /\ succeed_in_order before h h1 /\
      forall h2, evaluate p h1 <> Ok (OK, h2)).
Proof.
  revert h. induction ps as [|p ps IH]; intros h.
  - left. exists h. constructor.
  - destruct (evaluate p h) as [[err h1]|e] eqn:Hp.
    + destruct (decide (err = OK)) as [->|Herr].
      * destruct (IH h1) as [[h' Hall]|(before & q & after & h2 & -> & Hb & Hq)].
        -- left. exists h'. by econstructor.
        -- right. exists (p :: before), q, after, h2.
           repeat split; [by econstructor|done].
      * right. exists [], p, ps, h. repeat split; [constructor|].
        rewrite Hp. intros h2 [= ? _]. done.
    + right. exists [], p, ps, h. repeat split; [constructor|].
      rewrite Hp. done.
Qed.

(** C2. [evaluate] calls [evaluate] on the parameters in declaration order.
    Either all of them succeed and it returns [OK], or it returns the status
    of the first one that fails, with the heap as that call left it: the
    parameters after it are not evaluated, and the result does not depend on
    them.  It returns [OK] exactly when every parameter's [evaluate] does.
    A parameter whose [evaluate] aborts ends the run in the same way: the
    abort is the outcome, and the parameters after it are not evaluated. *)
Theorem evaluate_fail_fast (this : Annotation) (h : Heap) :
  ((exists h',
       succeed_in_order (params this) h h' /\
       Annotation_evaluate this h = Ok (OK, h')) \/
   (exists before p after h1 err h2,
       params this = before ++ p :: after /\
       succeed_in_order before h h1 /\
       evaluate p h1 = Ok (err, h2) /\ err <> OK /\
       Annotation_evaluate this h = Ok (err, h2) /\
       forall after',
         Annotation_evaluate (Annotation_new (name this) (before ++ p :: after')) h
         = Ok (err, h2)) \/
   (exists before p after h1 e,
       params this = before ++ p :: after /\
       succeed_in_order before h h1 /\
       evaluate p h1 = Fatal e /\
       Annotation_evaluate this h = Fatal e /\
       forall after',
         Annotation_evaluate (Annotation_new (name this) (before ++ p :: after')) h
         = Fatal e)) /\
  ((exists h', Annotation_evaluate this h = Ok (OK, h')) <->
   exists h', succeed_in_order (params this) h h').
Proof.
  unfold Annotation_evaluate, params.
  destruct (evaluate_loop_cases (Annotation_mParams this) h)
    as [[h' Hall]|(before & p & after & h1 & Hps & Hb & Hp)].
  - pose proof (evaluate_loop_succeed _ _ _ Hall) as Heval. split.
    + left. by exists h'.
    + split; [by exists h'|]. intros _. by exists h'.
  - pose proof (fun after' => evaluate_loop_stops before p after' h h1 Hb Hp) as Heval.
    split.
    + right. rewrite Hps, (Heval after).
      destruct (evaluate p h1) as [[err h2]|e] eqn:Hpr.
      * left. exists before, p, after, h1, err, h2.
        split; [done|]. split; [done|]. split; [done|]. split.
        { intros ->. by destruct (Hp h2). }
        split; [done|]. intros after'. cbn. by rewrite (Heval after').
      * right. exists before, p, after, h1, e.
        split; [done|]. split; [done|]. split; [done|].
        split; [done|]. intros after'. cbn. by rewrite (Heval after').
    + rewrite Hps, (Heval after). split.
      * intros [h' Heq]. by destruct (Hp h').
      * intros [h' Hall]. apply evaluate_loop_succeed in Hall.
        rewrite (Heval after) in Hall. by destruct (Hp h').
Qed.

Lemma evaluate_nodes_succeed (nodes : list Node) (h h' : Heap) :
  nodes_evaluated nodes h h' -> evaluate_nodes nodes h = Ok h'.
Proof.
  induction 1 as [|node nodes h h' h'' Hnode _ IH]; [done|].
  cbn. by rewrite Hnode.
Qed.

Lemma evaluate_nodes_fatal (before : list Node) (node : Node) (after : list Node)
    (h h1 : Heap) (e : check_failure) :
  nodes_evaluated before h h1 ->
  ce_evaluate node h1 = Fatal e ->
  evaluate_nodes (before ++ node :: after) h = Fatal e.
Proof.
  intros Hbefore Hnode.
  induction Hbefore as [|n ns h h' h'' Hn _ IH]; cbn.
  - by rewrite Hnode.
  - rewrite Hn. cbn. auto.
Qed.

(** Either every node folds, or the nodes split at the first one that
    fails. *)
Lemma evaluate_nodes_cases (nodes : list Node) (h : Heap) :
  (exists h', nodes_evaluated nodes h h') \/
  (exists before node after h1 e,
      nodes = before ++ node :: after /\ nodes_evaluated before h h1 /\
      ce_evaluate node h1 = Fatal e).
Proof.
  revert h. induction nodes as [|node nodes IH]; intros h.
  - left. exists h. constructor.
  - destruct (ce_evaluate node h) as [h1|e] eqn:Hnode.
    + destruct (IH h1) as [[h' Hall]|(before & n & after & h2 & e & -> & Hb & Hn)].
      * left. exists h'. by econstructor.
      * right. exists (node :: before), n, after, h2, e.
        repeat split; [by econstructor|done].
    + right. exists [], node, nodes, h, e. repeat split; [constructor|done].
Qed.

(** C3. [evaluate] of a ConstantExpression parameter calls [evaluate()] on
    the underlying nodes in order.  When every node folds it has evaluated
    all of them and returns [OK].  When some node fails to fold, the outcome
    is the failure of the first such node, not success. *)
Theorem ConstantExpression_evaluate_propagates
    (key : string) (nodes : list Node) (h : Heap) :
  ((exists h',
       nodes_evaluated nodes h h' /\
       evaluate (ConstantExpressionAnnotationParam key nodes) h = Ok (OK, h')) \/
   (exists before node after h1 e,
       nodes = before ++ node :: after /\
       nodes_evaluated before h h1 /\
       ce_evaluate node h1 = Fatal e /\
       evaluate (ConstantExpressionAnnotationParam key nodes) h = Fatal e)) /\
  (forall before node after h1 e,
     nodes = before ++ node :: after ->
     nodes_evaluated before h h1 ->
     ce_evaluate node h1 = Fatal e ->
     evaluate (ConstantExpressionAnnotationParam key nodes) h = Fatal e /\
     forall status h',
       evaluate (ConstantExpressionAnnotationParam key nodes) h <> Ok (status, h')).
Proof.
  cbn [evaluate ConstantExpressionAnnotationParam].
  unfold ConstantExpressionAnnotationParam_evaluate, AnnotationParam_evaluate.
  split.
  - destruct (evaluate_nodes_cases nodes h)
      as [[h' Hall]|(before & node & after & h1 & e & -> & Hb & Hnode)].
    + left. exists h'. split; [done|]. by rewrite (evaluate_nodes_succeed _ _ _ Hall).
    + right. exists before, node, after, h1, e.
      repeat split; try done.
      by rewrite (evaluate_nodes_fatal before node after h h1 e).
  - intros before node after h1 e -> Hb Hnode.
    rewrite (evaluate_nodes_fatal before node after h h1 e Hb Hnode).
    by split.
Qed.

End AnnotationProperties.

(** ** Rendering *)

Section DumpProperties.
Context {Heap Node : Type} `{!ConstantExpressionOps Heap Node}.
Implicit Types (p : AnnotationParam (Heap := Heap)) (ps : list (AnnotationParam (Heap := Heap))).

Lemma dump_param_text (i : nat) p (h : Heap) (out : Formatter) :
  dump_param i p h out =
  out +:+ (if bool_decide (0 < i) then ", " else "")
      +:+ param_text (getName p) (getValues p h).
Proof.
  unfold dump_param, param_text, put.
  destruct (bool_decide (0 < i)), (bool_decide (1 < length (getValues p h)));
    by rewrite ?append_assoc, ?append_nil_l.
Qed.

Lemma dump_loop_text ps (h : Heap) (k i : nat) (out : Formatter) :
  i + k = length ps ->
  dump_loop ps h i out = Ok (out +:+ loop_text h i (drop i ps)).
Proof.
  revert i out. induction k as [|k IH]; intros i out Hlen.
  - simp dump_loop. destruct (decide (i < length ps)) as [Hlt|Hge]; [lia|].
    cbn. rewrite drop_ge by lia. cbn. by rewrite append_nil_r.
  - simp dump_loop. destruct (decide (i < length ps)) as [Hlt|Hge]; [|lia].
    cbn. destruct (lookup_lt_is_Some_2 ps i Hlt) as [p Hp].
    unfold at_. rewrite Hp. cbn.
    rewrite IH by lia. rewrite (drop_S _ _ _ Hp). cbn [loop_text].
    by rewrite dump_param_text, !append_assoc.
Qed.

Lemma loop_text_join p ps (h : Heap) (i : nat) :
  param_text (getName p) (getValues p h) +:+ loop_text h (S i) ps =
  JoinStrings (map (fun q => param_text (getName q) (getValues q h)) (p :: ps)) ", ".
Proof.
  revert p i. induction ps as [|q ps IH]; intros p i.
  - cbn. by rewrite append_nil_r.
  - cbn [loop_text]. rewrite (bool_decide_eq_true_2 (0 < S i)) by lia.
    rewrite IH. done.
Qed.

Lemma text_of_params (this : Annotation) (h : Heap) :
  map (fun kv => param_text (fst kv) (snd kv)) (keys_and_values this h) =
  map (fun q => param_text (getName q) (getValues q h)) (params this).
Proof. unfold keys_and_values. by rewrite map_map. Qed.

(** [dump] appends the canonical text of the annotation to the sink. *)
Lemma dump_text (this : Annotation) (h : Heap) (out : Formatter) :
  dump this h out =
  Ok (out +:+ annotation_text (name this) (keys_and_values this h)).
Proof.
  unfold dump, annotation_text. rewrite text_of_params.
  unfold keys_and_values, params, name, put.
  destruct (Annotation_mParams this) as [|p ps] eqn:Hps.
  - rewrite bool_decide_eq_true_2 by done.
    by rewrite append_nil_r, !append_assoc.
  - rewrite bool_decide_eq_false_2 by (cbn; lia).
    rewrite (dump_loop_text _ h (length (p :: ps)) 0) by done.
    rewrite drop_0. cbn [bind loop_text map].
    rewrite (bool_decide_eq_false_2 (0 < 0)) by lia.
    rewrite append_nil_l, loop_text_join.
    by rewrite !append_assoc.
Qed.

(** C1. [dump] writes ["@"] and the name when there is no parameter.
    Otherwise it writes ["@Name("], the parameters in declaration order
    separated by [", "], and [")"]; a parameter is written [key=value] when
    [getValues] has one element and [key={v1, v2, ...}] when it has more
    than one; whether the braces are written depends on the number of
    values only. *)
Theorem dump_format (this : Annotation) (h : Heap) (out : Formatter) :
  let text q := param_text (getName q) (getValues q h) in
  (params this = [] -> dump this h out = Ok (out +:+ "@" +:+ name this)) /\
  (params this <> [] ->
     dump this h out =
     Ok (out +:+ "@" +:+ name this +:+ "("
             +:+ JoinStrings (map text (params this)) ", " +:+ ")")) /\
  (forall q v, getValues q h = [v] -> text q = getName q +:+ "=" +:+ v) /\
  (forall q, 1 < length (getValues q h) ->
     text q = getName q +:+ "={" +:+ JoinStrings (getValues q h) ", " +:+ "}") /\
  (forall q, ~ 1 < length (getValues q h) ->
     text q = getName q +:+ "=" +:+ JoinStrings (getValues q h) ", ").
Proof.
  intros text. rewrite dump_text. unfold annotation_text.
  rewrite text_of_params. fold text.
  split; [|split; [|split; [|split]]].
  - unfold params, keys_and_values, params. intros ->. cbn. by rewrite append_nil_r.
  - unfold params, keys_and_values, params.
    destruct (Annotation_mParams this) as [|p ps]; [done|]. intros _.
    by rewrite ?append_assoc.
  - intros q v Hq. unfold text, param_text. rewrite Hq. done.
  - intros q Hq. unfold text, param_text.
    rewrite bool_decide_eq_true_2 by done. by rewrite ?append_assoc.
  - intros q Hq. unfold text, param_text.
    by rewrite bool_decide_eq_false_2 by done.
Qed.

(** C10. A parameter whose [getValues] is empty is still written, as its
    name and ["="] with nothing after it and no braces. *)
Theorem dump_param_without_values
    (this : Annotation) (h : Heap) (out : Formatter) before p after :
  let text q := param_text (getName q) (getValues q h) in
  params this = before ++ p :: after ->
  getValues p h = [] ->
  dump this h out =
  Ok (out +:+ "@" +:+ name this +:+ "("
          +:+ JoinStrings (map text before ++ (getName p +:+ "=") :: map text after) ", "
          +:+ ")").
Proof.
  intros text Hps Hp. rewrite dump_text. unfold annotation_text.
  rewrite text_of_params. fold text. rewrite Hps, map_app. cbn [map].
  replace (text p) with (getName p +:+ "=").
  2:{ unfold text, param_text. rewrite Hp. cbn. by rewrite append_nil_r. }
  unfold keys_and_values. rewrite Hps.
  destruct before; cbn [map app]; by rewrite ?append_assoc.
Qed.

End DumpProperties.

(** ** The name *)

Section NameProperties.
Context {Heap Node : Type} `{!ConstantExpressionOps Heap Node}.

Lemma run_call_this (c : call) (m m' : @machine Heap) :
  run_call c m = Ok m' -> m_this m' = m_this m.
Proof.
  destruct c; cbn; try by intros [= <-].
  - destruct (Annotation_evaluate (m_this m) (m_heap m)) as [r|e]; cbn; [|done].
    by intros [= <-].
  - rewrite dump_text. cbn. by intros [= <-].
Qed.

Lemma run_calls_this (cs : list call) (m m' : @machine Heap) :
  run_calls cs m = Ok m' -> m_this m' = m_this m.
Proof.
  revert m. induction cs as [|c cs IH]; intros m; cbn; [by intros [= <-]|].
  destruct (run_call c m) as [m1|e] eqn:Hc; cbn; [|done].
  intros Hcs. rewrite (IH _ Hcs). by apply run_call_this with c.
Qed.

(** The calls all return when [evaluate] does. *)
Lemma run_calls_return (cs : list call) (m : @machine Heap) :
  (forall h, exists r, Annotation_evaluate (m_this m) h = Ok r) ->
  exists m', run_calls cs m = Ok m'.
Proof.
  revert m. induction cs as [|c cs IH]; intros m Heval; cbn; [eauto|].
  assert (exists m1, run_call c m = Ok m1) as [m1 Hc].
  { destruct c; cbn; eauto.
    - destruct (Heval (m_heap m)) as [r ->]. cbn. eauto.
    - rewrite dump_text. cbn. eauto. }
  rewrite Hc. cbn. apply IH. by rewrite (run_call_this _ _ _ Hc).
Qed.

(** C9, as the code has it.  The constructor stores the name it is given,
    empty or not, and no member function changes it: after any sequence of
    calls [name()] still returns the constructor's argument, so that it has
    at least one character exactly when that argument has.  The calls all
    return unless [evaluate] aborts. *)
Theorem name_is_constructor_argument
    (n : string) (ps : list AnnotationParam) (cs : list call)
    (h : Heap) (out : Formatter) :
  let start := {| m_this := Annotation_new n ps; m_heap := h; m_out := out |} in
  name (Annotation_new n ps) = n /\
  (forall m',
     run_calls cs start = Ok m' ->
     name (m_this m') = n /\
     (1 <= String.length (name (m_this m')) <-> 1 <= String.length n)) /\
  ((forall h', exists r, Annotation_evaluate (Annotation_new n ps) h' = Ok r) ->
   exists m',
     run_calls cs start = Ok m' /\
     name (m_this m') = n /\
     (1 <= String.length (name (m_this m')) <-> 1 <= String.length n)).
Proof.
  intros start.
  assert (Hkeep : forall m', run_calls cs start = Ok m' ->
            name (m_this m') = n /\
            (1 <= String.length (name (m_this m')) <-> 1 <= String.length n)).
  { intros m' Hrun. by rewrite (run_calls_this _ _ _ Hrun). }
  split; [done|]. split; [exact Hkeep|].
  intros Heval. destruct (run_calls_return cs start Heval) as [m' Hrun].
  exists m'. split; [done|]. by apply Hkeep.
Qed.

End NameProperties.

(** ** The statements at concrete inputs *)

Lemma getSingleString_unquotes_witness :
  getSingleValue (StringParam "repr" [quoted "abc"]) sample_heap = Ok (quoted "abc") /\
  getSingleString (StringParam "repr" [quoted "abc"]) sample_heap = Ok "abc".
Proof.
  split; [reflexivity|].
  destruct (getSingleString_unquotes
              (StringParam "repr" [quoted "abc"]) sample_heap (quoted "abc") eq_refl)
    as (_ & _ & Hiff).
  apply Hiff. reflexivity.
Defined.

Lemma dump_format_witness :
  params (Annotation_new "token" [StringParam "repr" [quoted "abc"]]) <> [] /\
  dump (Annotation_new "token" [StringParam "repr" [quoted "abc"]]) sample_heap ""
  = Ok ("@token(repr=" +:+ quoted "abc" +:+ ")").
Proof.
  split; [discriminate|].
  destruct (dump_format (Annotation_new "token" [StringParam "repr" [quoted "abc"]])
              sample_heap "") as (_ & Hdump & _).
  rewrite Hdump; [reflexivity|discriminate].
Defined.

Lemma dump_param_without_values_witness :
  getValues (StringParam "key" []) sample_heap = [] /\
  dump (Annotation_new "Name" [StringParam "key" []]) sample_heap "" = Ok "@Name(key=)".
Proof.
  split; [reflexivity|].
  exact (dump_param_without_values
           (Annotation_new "Name" [StringParam "key" []]) sample_heap ""
           [] (StringParam "key" []) [] eq_refl eq_refl).
Defined.

Lemma getParam_first_match_witness :
  getParam (Annotation_new "A" [StringParam "y" ["0"]; StringParam "x" ["1"];
                                StringParam "x" ["2"]]) "x"
  = Some (StringParam "x" ["1"]).
Proof.
  destruct (getParam_first_match
              (Annotation_new "A" [StringParam "y" ["0"]; StringParam "x" ["1"];
                                   StringParam "x" ["2"]]) "x") as (_ & _ & Hfirst).
  apply (Hfirst [StringParam "y" ["0"]] (StringParam "x" ["1"]) []
                (StringParam "x" ["2"]) []); [reflexivity| |reflexivity|reflexivity].
  repeat constructor. discriminate.
Defined.

Lemma ConstantExpression_evaluate_propagates_witness :
  ce_evaluate 1 folded_heap = Fatal (EvaluationFailure "1 / 0") /\
  evaluate (ConstantExpressionParam "value" [0; 1]) sample_heap
  = Fatal (EvaluationFailure "1 / 0").
Proof.
  split; [reflexivity|].
  destruct (ConstantExpression_evaluate_propagates "value" [0; 1] sample_heap)
    as [_ Hfail].
  apply (Hfail [0] 1 [] folded_heap (EvaluationFailure "1 / 0")).
  - reflexivity.
  - apply nodes_cons with folded_heap; [reflexivity|constructor].
  - reflexivity.
Defined.

Lemma name_is_constructor_argument_witness :
  exists m',
    run_calls [call_evaluate; call_dump; call_getParam "key"]
      {| m_this := Annotation_new "Name" [StringParam "key" ["1"]];
         m_heap := sample_heap; m_out := "" |} = Ok m' /\
    name (m_this m') = "Name".
Proof.
  destruct (name_is_constructor_argument "Name" [StringParam "key" ["1"]]
              [call_evaluate; call_dump; call_getParam "key"] sample_heap "")
    as (_ & _ & Hreturn).
  destruct Hreturn as (m' & Hrun & Hname & _).
  - intros h'. by exists (OK, h').
  - by exists m'.
Defined.

(** C9, as it is stated, fails: the constructor accepts the empty name. *)
Lemma empty_name_is_accepted :
  ~ 1 <= String.length (name (Annotation_new "" [StringParam "key" ["1"]])).
Proof. cbn. lia. Qed.

(** ** The specification's test cases *)

Example dump_no_params :
  dump (Annotation_new "callflow" ([] : list (AnnotationParam (Heap := list arena_node))))
       sample_heap "" = Ok "@callflow".
Proof. reflexivity. Qed.

Example dump_one_and_many :
  dump (Annotation_new "entry"
          [StringParam "key" []; StringParam "next" ["a"; "b"];
           ConstantExpressionParam "size" [0]])
       folded_heap ""
  = Ok "@entry(key=, next={a, b}, size=1 + 2 /* 1 + 2 */)".
Proof. reflexivity. Qed.

Example getParam_then_getSingleString :
  (p ← getParam (Annotation_new "token" [StringParam "repr" [quoted "abc"]]) "repr";
   Some (getSingleString p sample_heap)) = Some (Ok "abc").
Proof. reflexivity. Qed.

Example getParam_not_found :
  getParam (Annotation_new "token" [StringParam "repr" [quoted "abc"]]) "x" = None.
Proof. reflexivity. Qed.

Example getSingleString_unquoted :
  getSingleString (StringParam "repr" ["abc"]) sample_heap
  = Fatal (TypeMismatch "repr must be a string").
Proof. reflexivity. Qed.

Example getSingleString_lone_quote :
  getSingleString (StringParam "repr" [String dquote ""]) sample_heap
  = Fatal (TypeMismatch "repr must be a string").
Proof. reflexivity. Qed.

Example getSingleBool_true :
  getSingleBool (StringParam "oneway" [quoted "true"]) sample_heap = Ok true.
Proof. reflexivity. Qed.

Example getSingleBool_false :
  getSingleBool (StringParam "oneway" [quoted "false"]) sample_heap = Ok false.
Proof. reflexivity. Qed.

Example getSingleBool_other :
  getSingleBool (StringParam "oneway" [quoted "True"]) sample_heap
  = Fatal (TypeMismatch "oneway must be of boolean value (true/false).").
Proof. reflexivity. Qed.

Example getSingleValue_two_values :
  getSingleValue (StringParam "next" ["a"; "b"]) sample_heap
  = Fatal (WrongArity "next requires one value but has multiple").
Proof. reflexivity. Qed.

Example getSingleValue_no_value :
  getSingleValue (ConstantExpressionParam "size" []) sample_heap
  = Fatal (WrongArity "size requires one value but has multiple").
Proof. reflexivity. Qed.

(** [P1] fails: its status is returned and [P2] is not evaluated. *)
Example evaluate_first_fails :
  Annotation_evaluate
    (Annotation_new "A" [LoggingParam "P1" UNKNOWN_ERROR; LoggingParam "P2" OK]) []
  = Ok (UNKNOWN_ERROR, ["P1"]).
Proof. reflexivity. Qed.

Example evaluate_all_succeed :
  Annotation_evaluate
    (Annotation_new "A" [LoggingParam "P1" OK; LoggingParam "P2" OK]) []
  = Ok (OK, ["P1"; "P2"]).
Proof. reflexivity. Qed.

(** The nodes of a parameter are folded in place. *)
Example evaluate_folds_nodes :
  evaluate (ConstantExpressionParam "size" [0]) sample_heap = Ok (OK, folded_heap).
Proof. reflexivity. Qed.

(** A node that does not fold ends the evaluation of the annotation. *)
Example evaluate_node_fails :
  Annotation_evaluate
    (Annotation_new "A" [ConstantExpressionParam "size" [0; 1]; StringParam "key" ["1"]])
    sample_heap
  = Fatal (EvaluationFailure "1 / 0").
Proof. reflexivity. Qed.

(** * Further properties of the code *)

(** ** Validation *)

Section ValidateProperties.
Context {Heap Node : Type} `{!ConstantExpressionOps Heap Node}.
Implicit Types (p : AnnotationParam (Heap := Heap)) (ps : list (AnnotationParam (Heap := Heap))).



End ValidateProperties.

(** ** The parameter classes of this file *)

Section ClassProperties.
Context {Heap Node : Type} `{!ConstantExpressionOps Heap Node}.
Implicit Types (c : param_class (Node := Node)) (cs : list (param_class (Node := Node))).

Lemma evaluate_nodes_app (nodes1 nodes2 : list Node) (h : Heap) :
  evaluate_nodes (nodes1 ++ nodes2) h =
  (h' <- evaluate_nodes nodes1 h ;; evaluate_nodes nodes2 h').
Proof.
  revert h. induction nodes1 as [|node nodes1 IH]; intros h; [done|].
  cbn [app evaluate_nodes]. destruct (ce_evaluate node h) as [h1|e]; [|done].
  cbn [bind]. apply IH.
Qed.

(** Evaluating the parameters is evaluating their nodes, all in a row. *)
Lemma evaluate_loop_construct cs (h : Heap) :
  evaluate_loop (map construct cs) h =
  (h' <- evaluate_nodes (concat (map nodes_of cs)) h ;; Ok (OK, h')).
Proof.
  revert h. induction cs as [|c cs IH]; intros h; [done|].
  cbn [map concat evaluate_loop]. rewrite evaluate_nodes_app.
  destruct c as [key values|key nodes]; cbn [construct nodes_of].
  - cbn. apply IH.
  - cbn [evaluate ConstantExpressionAnnotationParam].
    unfold ConstantExpressionAnnotationParam_evaluate, AnnotationParam_evaluate.
    destruct (evaluate_nodes nodes h) as [h1|e]; [|done].
    cbn. apply IH.
Qed.

Lemma validate_loop_construct cs (h : Heap) :
  validate_loop (map construct cs) h = OK.
Proof. induction cs as [|[key values|key nodes] cs IH]; cbn; done. Qed.

(** X2. For an annotation whose parameters are all of the two classes of
    this file, [evaluate] calls [evaluate()] on the nodes of the
    ConstantExpression parameters, parameter by parameter in declaration
    order (string parameters contribute none).  When every node folds it
    returns [OK]; when one does not, the run ends at the first such node
    with its failure.  It never returns a status other than [OK], and
    [validate] returns [OK]. *)
Theorem constructed_annotation_evaluates_nodes (n : string) cs (h : Heap) :
  let this := Annotation_new n (map construct cs) in
  ((exists h',
       nodes_evaluated (concat (map nodes_of cs)) h h' /\
       Annotation_evaluate this h = Ok (OK, h')) \/
   (exists before node after h1 e,
       concat (map nodes_of cs) = before ++ node :: after /\
       nodes_evaluated before h h1 /\
       ce_evaluate node h1 = Fatal e /\
       Annotation_evaluate this h = Fatal e)) /\
  (forall status h', Annotation_evaluate this h = Ok (status, h') -> status = OK) /\
  (forall h', Annotation_validate this h' = OK).
Proof.
  intros this. unfold this, Annotation_evaluate, Annotation_validate.
  cbn [Annotation_mParams Annotation_new]. rewrite evaluate_loop_construct.
  split; [|split].
  - destruct (evaluate_nodes_cases (concat (map nodes_of cs)) h)
      as [[h' Hall]|(before & node & after & h1 & e & Hsplit & Hb & Hnode)].
    + left. exists h'. split; [done|]. by rewrite (evaluate_nodes_succeed _ _ _ Hall).
    + right. exists before, node, after, h1, e.
      repeat split; try done.
      by rewrite Hsplit, (evaluate_nodes_fatal before node after h h1 e).
  - intros status h'. destruct (evaluate_nodes _ h) as [h1|e]; cbn; [|done].
    by intros [= <- _].
  - intros h'. apply validate_loop_construct.
Qed.

(** X3. For both classes [getSingleValue] and [getValues] agree:
    [getSingleValue] returns [v] exactly when [getValues] is the one-element
    sequence [v], and it fails exactly when [getValues] does not have one
    element. *)
Theorem getSingleValue_agrees_with_getValues c (h : Heap) :
  (forall v, getSingleValue (construct c) h = Ok v <->
             getValues (construct c) h = [v]) /\
  ((exists e, getSingleValue (construct c) h = Fatal e) <->
   length (getValues (construct c) h) <> 1).
Proof.
  destruct c as [key values|key nodes]; cbn.
  - unfold StringAnnotationParam_getSingleValue, StringAnnotationParam_getValues.
    rewrite CHECK_arity_inv.
    destruct values as [|v0 [|v1 values]]; cbn; (split; [intros v; split|split]);
      try done; try (by intros [= ->]); try (by intros [??]); eauto.
  - unfold ConstantExpressionAnnotationParam_getSingleValue,
      ConstantExpressionAnnotationParam_getValues.
    rewrite CHECK_arity_inv, push_back_loop.
    destruct nodes as [|n0 [|n1 nodes]]; cbn; (split; [intros v; split|split]);
      try done; try (by intros [= ->]); try (by intros [??]); eauto.
Qed.

End ClassProperties.

(** ** Typed accessors *)

Section TypedAccessorProperties.
Context {Heap Node : Type} `{!ConstantExpressionOps Heap Node}.
Implicit Types (this : AnnotationParam (Heap := Heap)).

Lemma not_quoted_iff (v : string) :
  is_quoted v = false <-> forall r, v <> quoted r.
Proof.
  split.
  - intros Hq r ->. destruct (quoted_is_quoted r) as [Hq' _]. congruence.
  - intros Hne. destruct (is_quoted v) eqn:Hq; [|done].
    by destruct (Hne _ (is_quoted_unquote v Hq)).
Qed.

Lemma getSingleString_Ok_iff this (h : Heap) (r : string) :
  getSingleString this h = Ok r <-> getSingleValue this h = Ok (quoted r).
Proof.
  unfold getSingleString. destruct (getSingleValue this h) as [v|e]; cbn; [|done].
  destruct (is_quoted v) eqn:Hq; cbn.
  - split.
    + intros [= <-]. f_equal. by apply is_quoted_unquote.
    + intros [= ->]. f_equal. apply (quoted_is_quoted r).
  - split; [done|]. intros [= ->]. destruct (quoted_is_quoted r) as [Hq' _]. congruence.
Qed.

Lemma convertToString_not_quoted (node : Node) (h : Heap) :
  is_quoted (convertToString node h) = false.
Proof.
  destruct (is_quoted (convertToString node h)) eqn:Hq; [|done].
  apply is_quoted_spec in Hq as (_ & _ & Hlast).
  assert (Hsplit : convertToString node h =
            (ce_value node h +:+ " /* " +:+ ce_description node h +:+ " *")
            +:+ String "/"%char "").
  { unfold convertToString. by rewrite !append_assoc. }
  rewrite Hsplit, length_append in Hlast. cbn [String.length] in Hlast.
  replace (_ + 1 - 1) with
    (String.length (ce_value node h +:+ " /* " +:+ ce_description node h +:+ " *"))
    in Hlast by lia.
  rewrite get_last in Hlast. discriminate.
Qed.

Lemma quoted_inj (r1 r2 : string) : quoted r1 = quoted r2 -> r1 = r2.
Proof.
  intros Heq. destruct (quoted_is_quoted r1) as [_ <-].
  destruct (quoted_is_quoted r2) as [_ <-]. by rewrite Heq.
Qed.

Lemma getSingleString_of_node (key : string) (node : Node) (h : Heap) :
  getSingleString (ConstantExpressionAnnotationParam key [node]) h
  = Fatal (TypeMismatch (key +:+ " must be a string")).
Proof.
  unfold getSingleString.
  change (getSingleValue (ConstantExpressionAnnotationParam key [node]) h)
    with (Ok (A := string) (convertToString node h)).
  cbn [bind]. by rewrite convertToString_not_quoted.
Qed.

Lemma getSingleString_of_nodes (key : string) (nodes : list Node) (h : Heap) :
  length nodes <> 1 ->
  getSingleValue (ConstantExpressionAnnotationParam key nodes) h
  = Fatal (WrongArity (key +:+ " requires one value but has multiple")) /\
  getSingleString (ConstantExpressionAnnotationParam key nodes) h
  = Fatal (WrongArity (key +:+ " requires one value but has multiple")).
Proof.
  intros Hlen.
  assert (Hvalue : getSingleValue (ConstantExpressionAnnotationParam key nodes) h
            = Fatal (WrongArity (key +:+ " requires one value but has multiple"))).
  { cbn [getSingleValue ConstantExpressionAnnotationParam].
    unfold ConstantExpressionAnnotationParam_getSingleValue.
    rewrite CHECK_arity_inv. by destruct (decide _). }
  split; [done|]. unfold getSingleString. by rewrite Hvalue.
Qed.

(** X4. A ConstantExpression parameter is never a string or a boolean.  With
    one node its single value ends in the comment that [convertToString]
    appends, not in a double quote, so [getSingleString] and [getSingleBool]
    fail at the check "must be a string".  With any other number of nodes
    both fail exactly as [getSingleValue] does, at the check on the number
    of values. *)
Theorem ConstantExpression_param_is_no_string (key : string) (nodes : list Node) (h : Heap) :
  let this := ConstantExpressionAnnotationParam key nodes in
  (if decide (length nodes = 1)
   then getSingleString this h = Fatal (TypeMismatch (key +:+ " must be a string")) /\
        getSingleBool this h = Fatal (TypeMismatch (key +:+ " must be a string"))
   else getSingleValue this h
        = Fatal (WrongArity (key +:+ " requires one value but has multiple")) /\
        getSingleString this h = getSingleValue this h /\
        getSingleBool this h
        = Fatal (WrongArity (key +:+ " requires one value but has multiple"))) /\
  (forall r, getSingleString this h <> Ok r) /\
  (forall b, getSingleBool this h <> Ok b).
Proof.
  intros this. unfold this.
  assert (Hcases :
    if decide (length nodes = 1)
    then getSingleString (ConstantExpressionAnnotationParam key nodes) h
         = Fatal (TypeMismatch (key +:+ " must be a string"))
    else getSingleString (ConstantExpressionAnnotationParam key nodes) h
         = Fatal (WrongArity (key +:+ " requires one value but has multiple"))).
  { destruct (decide (length nodes = 1)) as [Hlen|Hlen].
    - destruct nodes as [|node [|node' nodes]]; try done.
      apply getSingleString_of_node.
    - by apply getSingleString_of_nodes. }
  unfold getSingleBool.
  destruct (decide (length nodes = 1)) as [Hlen|Hlen]; rewrite Hcases; cbn [bind].
  - by repeat split.
  - destruct (getSingleString_of_nodes key nodes h Hlen) as [Hvalue _].
    rewrite Hvalue. by repeat split.
Qed.

(** X5. [getSingleBool] returns [true] exactly when the single value is the
    text [true] between double quotes, and [false] exactly when it is the
    text [false] between double quotes. *)
Theorem getSingleBool_Ok_iff this (h : Heap) (b : bool) :
  getSingleBool this h = Ok b <->
  getSingleValue this h = Ok (quoted (if b then "true" else "false")).
Proof.
  rewrite <- getSingleString_Ok_iff. unfold getSingleBool.
  destruct (getSingleString this h) as [s|e]; cbn; [|done].
  destruct (decide (s = "true")) as [->|Ht].
  { destruct b; cbn; split; try done; by intros [= ?]. }
  rewrite (bool_decide_eq_false_2 _ Ht).
  destruct (decide (s = "false")) as [->|Hf].
  { destruct b; cbn; split; try done; by intros [= ?]. }
  rewrite (bool_decide_eq_false_2 _ Hf). cbn.
  destruct b; split; try done; intros [= ->]; done.
Qed.

(** X6. The failures of [getSingleBool], in the order of the checks: the
    failure of [getSingleValue], returned as it is; or the single value is
    not between double quotes, and the message is "must be a string"; or it
    is, the text between them is neither [true] nor [false], and the message
    is "must be of boolean value". *)
Theorem getSingleBool_failures this (h : Heap) (e : check_failure) :
  getSingleBool this h = Fatal e <->
  getSingleValue this h = Fatal e \/
  (exists v,
      getSingleValue this h = Ok v /\ (forall r, v <> quoted r) /\
      e = TypeMismatch (getName this +:+ " must be a string")) \/
  (exists r,
      getSingleValue this h = Ok (quoted r) /\ r <> "true" /\ r <> "false" /\
      e = TypeMismatch (getName this +:+ " must be of boolean value (true/false).")).
Proof.
  unfold getSingleBool, getSingleString, getName.
  destruct (getSingleValue this h) as [v|e0]; cbn [bind].
  2:{ split; [intros [= ->]; by left|].
      intros [[= ->]|[(v & ? & _)|(r & ? & _)]]; done. }
  destruct (is_quoted v) eqn:Hq; cbn [bind CHECK].
  - pose proof (is_quoted_unquote v Hq) as Hv.
    set (r := String.substring 1 (String.length v - 2) v) in *.
    assert (Hother : forall r', Ok (A := string) v = Ok (quoted r') -> r' = r).
    { intros r' [= Hr]. rewrite Hv in Hr. symmetry. by apply quoted_inj. }
    assert (Hno : ~ forall r', v <> quoted r') by (intros Hne; by destruct (Hne r)).
    destruct (decide (r = "true")) as [Ht|Ht].
    { rewrite (bool_decide_eq_true_2 _ Ht). split; [done|].
      intros [?|[(v' & [= <-] & Hne & _)|(r' & Hr & Hnt & _)]]; [done|done|].
      apply Hother in Hr. congruence. }
    rewrite (bool_decide_eq_false_2 _ Ht).
    destruct (decide (r = "false")) as [Hf|Hf].
    { rewrite (bool_decide_eq_true_2 _ Hf). split; [done|].
      intros [?|[(v' & [= <-] & Hne & _)|(r' & Hr & _ & Hnf & _)]]; [done|done|].
      apply Hother in Hr. congruence. }
    rewrite (bool_decide_eq_false_2 _ Hf). cbn [bind CHECK]. split.
    + intros [= <-]. right. right. exists r. by rewrite <- Hv.
    + intros [?|[(v' & [= <-] & Hne & _)|(r' & _ & _ & _ & ->)]]; done.
  - pose proof (proj1 (not_quoted_iff v) Hq) as Hne. split.
    + intros [= <-]. right. left. by exists v.
    + intros [?|[(v' & _ & _ & ->)|(r' & [= ->] & _)]]; [done|done|].
      by destruct (Hne r').
Qed.

End TypedAccessorProperties.

(** ** Lookup and rendering, composed *)

Section ComposedProperties.
Context {Heap Node : Type} `{!ConstantExpressionOps Heap Node}.
Implicit Types (p : AnnotationParam (Heap := Heap)).
Implicit Types (ps before after : list (AnnotationParam (Heap := Heap))).
Implicit Types (this : Annotation (Heap := Heap)).

Lemma getParam_loop_unique ps p :
  NoDup (map getName ps) -> p ∈ ps -> getParam_loop ps (getName p) = Some p.
Proof.
  induction ps as [|q ps IH]; cbn [map getParam_loop].
  - by intros _ ?%elem_of_nil.
  - intros [Hq Hps]%NoDup_cons [->|Hp]%elem_of_cons.
    + by rewrite bool_decide_eq_true_2.
    + rewrite bool_decide_eq_false_2; [by apply IH|].
      intros Heq. apply Hq. rewrite Heq.
      by apply (list_elem_of_fmap_2 getName).
Qed.

(** X7. When the names of the parameters are pairwise distinct, every
    parameter of the annotation is found under its own name. *)
Theorem getParam_unique_names this p :
  NoDup (map getName (params this)) ->
  p ∈ params this ->
  getParam this (getName p) = Some p.
Proof. apply getParam_loop_unique. Qed.

(** X9. The text that [dump] writes depends on the expression nodes only
    through [getValues]: on two heaps where every parameter has the same
    values, [dump] writes the same text. *)
Theorem dump_depends_on_values (this : Annotation) (h h' : Heap) (out : Formatter) :
  Forall (fun q => getValues q h = getValues q h') (params this) ->
  dump this h out = dump this h' out.
Proof.
  intros Hsame. rewrite !dump_text. do 3 f_equal.
  unfold keys_and_values. induction Hsame as [|q ps Hq _ IH]; [done|].
  cbn [map]. by rewrite Hq, IH.
Qed.

(** X10. Looking a string parameter up and unquoting it: when the first
    parameter named [key] is a string parameter whose one value is [r]
    between double quotes, [getParam] finds it and [getSingleString] of what
    it finds is [r], whatever [r] contains. *)
Theorem getParam_then_unquote this (h : Heap) (key r : string) before after :
  params this = before ++ StringAnnotationParam key [quoted r] :: after ->
  Forall (fun q => getName q <> key) before ->
  getParam this key = Some (StringAnnotationParam key [quoted r]) /\
  getSingleString (StringAnnotationParam key [quoted r]) h = Ok r.
Proof.
  intros Hps Hbefore. split.
  - apply getParam_loop_Some. by exists before, after.
  - by apply getSingleString_Ok_iff.
Qed.

End ComposedProperties.

(** ** The further properties at concrete inputs *)

Lemma getParam_unique_names_witness :
  getParam (Annotation_new "A" [StringParam "y" ["0"]; StringParam "x" ["1"]]) "x"
  = Some (StringParam "x" ["1"]).
Proof.
  apply (getParam_unique_names
           (Annotation_new "A" [StringParam "y" ["0"]; StringParam "x" ["1"]])
           (StringParam "x" ["1"])).
  - apply NoDup_cons. split; [|apply NoDup_singleton].
    intros Hin%list_elem_of_singleton. discriminate.
  - apply elem_of_cons. right. apply elem_of_cons. by left.
Defined.

Lemma dump_depends_on_values_witness :
  dump (Annotation_new "A" [StringParam "y" ["0"]; StringParam "x" ["1"; "2"]])
       sample_heap ""
  = dump (Annotation_new "A" [StringParam "y" ["0"]; StringParam "x" ["1"; "2"]])
         folded_heap "".
Proof.
  apply (dump_depends_on_values
           (Annotation_new "A" [StringParam "y" ["0"]; StringParam "x" ["1"; "2"]])).
  repeat constructor.
Defined.

Lemma getParam_then_unquote_witness :
  getParam (Annotation_new "token" [StringParam "id" ["7"]; StringParam "repr" [quoted "abc"]])
           "repr"
  = Some (StringParam "repr" [quoted "abc"]) /\
  getSingleString (StringParam "repr" [quoted "abc"]) sample_heap = Ok "abc".
Proof.
  apply (getParam_then_unquote
           (Annotation_new "token" [StringParam "id" ["7"]; StringParam "repr" [quoted "abc"]])
           sample_heap "repr" "abc" [StringParam "id" ["7"]] []).
  - reflexivity.
  - repeat constructor. discriminate.
Defined.
